(** * Yorkie server core: change identifiers, the webhook authorization
    gate and the PushPull engine, embedded in Rocq.

    Sources:
    - pkg/document/change/id.go                    (module [Change])
    - the [auth] package (src/unnamed/part_000)   (module [Auth])
    - yorkie/packs/packs.go                        (module [Packs])

    Go fixed-width integers are modelled as [Z] with their wrap-around
    written out ([wrap32], [wrap64]). *)

From Stdlib Require Import ZArith Lia List Bool.
From stdpp Require Import base gmap strings.
Import ListNotations.

Open Scope Z_scope.
Set Warnings "-register-all".

(** Unsigned wrap-around of Go's [uint32] and [uint64] arithmetic. *)
Definition wrap32 (z : Z) : Z := z mod 2 ^ 32.
Definition wrap64 (z : Z) : Z := z mod 2 ^ 64.

Definition MaxUint32 : Z := 2 ^ 32 - 1.
Definition MaxUint64 : Z := 2 ^ 64 - 1.

(** ** pkg/document/change/id.go *)
Module Change.

(** [time.ActorID]: an opaque 12-byte identifier. *)
Definition ActorID := list Byte.byte.

(** [type ID struct]: [serverSeq] is a [*uint64], [None] for nil. *)
Record ID := mkID {
  clientSeq : Z;          (* uint32 *)
  serverSeq : option Z;   (* *uint64 *)
  lamport : Z;            (* uint64 *)
  actorID : ActorID       (* *time.ActorID *)
}.

(** [NewID] leaves [serverSeq] nil. *)
Definition NewID (clientSeq : Z) (lamport : Z) (actorID : ActorID) : ID :=
  mkID clientSeq None lamport actorID.

(** [func (id *ID) Next() *ID] *)
Definition Next (id : ID) : ID :=
  {| clientSeq := wrap32 (clientSeq id + 1);
     serverSeq := None;
     lamport := wrap64 (lamport id + 1);
     actorID := actorID id |}.

(** [func (id *ID) SyncLamport(otherLamport uint64) *ID] *)
Definition SyncLamport (id : ID) (otherLamport : Z) : ID :=
  if lamport id <? otherLamport
  then NewID (clientSeq id) otherLamport (actorID id)
  else NewID (clientSeq id) (wrap64 (lamport id + 1)) (actorID id).

(** [func (id *ID) SetActor(actor *time.ActorID) *ID] *)
Definition SetActor (id : ID) (actor : ActorID) : ID :=
  NewID (clientSeq id) (lamport id) actor.

(** [func (id *ID) SetServerSeq(serverSeq *uint64) *ID] *)
Definition SetServerSeq (id : ID) (s : option Z) : ID :=
  let newID := NewID (clientSeq id) (lamport id) (actorID id) in
  {| clientSeq := clientSeq newID;
     serverSeq := s;
     lamport := lamport newID;
     actorID := actorID newID |}.

(** A well-formed ID: fields within their Go widths. *)
Definition wf (id : ID) : Prop :=
  0 <= clientSeq id <= MaxUint32 /\ 0 <= lamport id <= MaxUint64.

(** [time.Ticket] *)
Record Ticket := mkTicket {
  t_lamport : Z;
  t_delimiter : Z;
  t_actorID : ActorID
}.

(** [key.Key] of a document. *)
Record Key := mkKey { Collection : string; Document : string }.

(** [change.Checkpoint] (the type; [Checkpoint] is the pack's field) *)
Record checkpoint := mkCheckpoint { cp_serverSeq : Z; cp_clientSeq : Z }.

(** [change.Change]; operations are opaque to the server core. *)
Record Change := mkChange {
  ch_id : ID;
  ch_message : string;
  ch_operations : list string
}.

(** [change.Pack] *)
Record Pack := mkPack {
  DocumentKey : Key;
  Checkpoint : checkpoint;
  Changes : list Change;
  Snapshot : list Byte.byte;
  MinSyncedTicket : option Ticket
}.

(** Modelled from the spec: [change.Pack.HasChanges] (pkg/document/change,
    not among the sources) is "true iff [changes] is non-empty". *)
Definition HasChanges (p : Pack) : bool :=
  match Changes p with [] => false | _ :: _ => true end.

End Change.

(** ** Package [auth]: AccessAttributes, VerifyAccess and the webhook retry
    loop. *)
Module Auth.

(** Go errors. Sentinels are compared by identity ([==], [errors.Is]);
    [fmt.Errorf] keeps its format and arguments, and the error it wraps
    with [%w], if any. *)
Inductive sentinel := NotAllowed | UnexpectedStatusCode | WebhookTimeout.

Definition sentinel_eqb (a b : sentinel) : bool :=
  match a, b with
  | NotAllowed, NotAllowed
  | UnexpectedStatusCode, UnexpectedStatusCode
  | WebhookTimeout, WebhookTimeout => true
  | _, _ => false
  end.

(** Errors of [http.Post]: a [syscall.Errno] reachable by [errors.As]
    (the net package nests it in [*url.Error] / [*net.OpError]) or any
    other transport failure. *)
Inductive transportErr := TErrno (errno : Z) | TOther (msg : string).

Inductive ctxErr := Canceled | DeadlineExceeded.

Inductive fmtArg := ArgInt (n : Z) | ArgStr (s : string).

Inductive error :=
| Sentinel (s : sentinel)
| Transport (t : transportErr)
| Decode (msg : string)          (* types.NewAuthWebhookResponse *)
| Marshal (msg : string)         (* json.Marshal *)
| Ctx (c : ctxErr)               (* ctx.Err() *)
| NilDeref                       (* runtime panic on a nil pointer *)
| Errorf (format : string) (args : list fmtArg) (wrapped : option error).

(** [errors.Is(err, target)] for a sentinel target. *)
Fixpoint errorsIs (e : error) (target : sentinel) : bool :=
  match e with
  | Sentinel s => sentinel_eqb s target
  | Errorf _ _ (Some w) => errorsIs w target
  | _ => false
  end.

(** [errors.As(err, &errno)] with [errno syscall.Errno]. *)
Fixpoint errorsAsErrno (e : error) : option Z :=
  match e with
  | Transport (TErrno n) => Some n
  | Errorf _ _ (Some w) => errorsAsErrno w
  | _ => None
  end.

Definition ECONNRESET : Z := 104.

Definition StatusOK : Z := 200.
Definition StatusTooManyRequests : Z := 429.
Definition StatusInternalServerError : Z := 500.
Definition StatusServiceUnavailable : Z := 503.
Definition StatusGatewayTimeout : Z := 504.

(** [func shouldRetry(statusCode int, err error) bool] *)
Definition shouldRetry (statusCode : Z) (err : option error) : bool :=
  match match err with Some e => errorsAsErrno e | None => None end with
  | Some errno => errno =? ECONNRESET
  | None =>
      (statusCode =? StatusInternalServerError)
      || (statusCode =? StatusServiceUnavailable)
      || (statusCode =? StatusGatewayTimeout)
      || (statusCode =? StatusTooManyRequests)
  end.

(** [err == ErrUnexpectedStatusCode] *)
Definition isUnexpectedStatusCode (err : option error) : bool :=
  match err with
  | Some (Sentinel UnexpectedStatusCode) => true
  | _ => false
  end.

(** Signed wrap-around of Go's [int64] arithmetic ([time.Duration]). *)
Definition wrapInt64 (z : Z) : Z :=
  let m := z mod 2 ^ 64 in if m <? 2 ^ 63 then m else m - 2 ^ 64.

Definition Millisecond : Z := 1000000.   (* time.Millisecond, in ns *)

(** [func waitInterval(retries uint64, maxWaitInterval time.Duration)
    time.Duration], in nanoseconds. [math.Pow(2, float64(retries))] is
    exact for an integer exponent, and its conversion to [time.Duration]
    is exact while [2^retries] fits an [int64], i.e. [retries <= 62];
    beyond that Go leaves the conversion implementation-dependent and the
    model returns [None]. The two multiplications wrap as [int64]. *)
Definition waitInterval (retries maxWaitInterval : Z) : option Z :=
  if retries <=? 62 then
    let interval := wrapInt64 (wrapInt64 (2 ^ retries * 100) * Millisecond) in
    Some (if maxWaitInterval <? interval then maxWaitInterval else interval)
  else None.

(** The retry loop of [withExponentialBackoff], generic in the state the
    webhook closure captures ([St]). [webhookFn k st] is the outcome of
    the [k]-th call; [ctxDone k] is [Some] of [ctx.Err()] when the [select]
    after the [k]-th call takes the [ctx.Done()] branch. The loop either
    returns ([Finished], with the closure state and the number of calls
    made) or runs out of [fuel] ([Pending]). *)
Section Backoff.
Variable St : Type.
Variable webhookFn : nat -> St -> (Z * option error) * St.
Variable ctxDone : nat -> option ctxErr.
Variable maxRetries : Z.   (* cfg.AuthWebhookMaxRetries, uint64 *)

Inductive loopResult :=
| Finished (ret : option error) (st : St) (calls : nat)
| Pending (retries : Z) (st : St) (calls : nat).

(** [statusCode] is the variable declared before the loop; the body
    declares its own [statusCode] with [:=], so the outer one is never
    assigned, exactly as in the source. *)
Fixpoint backoffLoop (fuel : nat) (retries statusCode : Z) (st : St)
    (calls : nat) : loopResult :=
  match fuel with
  | O => Pending retries st calls
  | S fuel' =>
      if retries <=? maxRetries then
        let '((sc, err), st') := webhookFn calls st in
        if negb (shouldRetry sc err) then
          if isUnexpectedStatusCode err
          then Finished (Some (Errorf "unexpected status code from webhook: %d"
                                 [ArgInt sc] None)) st' (S calls)
          else Finished err st' (S calls)
        else
          match ctxDone calls with
          | Some c => Finished (Some (Ctx c)) st' (S calls)
          | None => backoffLoop fuel' (wrap64 (retries + 1)) statusCode st' (S calls)
          end
      else
        Finished (Some (Errorf "unexpected status code from webhook %d: %w"
                          [ArgInt statusCode] (Some (Sentinel WebhookTimeout))))
                 st calls
  end.

(** [var retries uint64; var statusCode int] start at zero. *)
Definition withExponentialBackoff (fuel : nat) (st : St) : loopResult :=
  backoffLoop fuel 0 0 st 0.
End Backoff.

Arguments Finished {St} ret st calls.
Arguments Pending {St} retries st calls.

(** Number of webhook calls made, finished or not. *)
Definition callsOf {St} (r : loopResult St) : nat :=
  match r with Finished _ _ calls | Pending _ _ calls => calls end.

Definition isFinished {St} (r : loopResult St) : bool :=
  match r with Finished _ _ _ => true | Pending _ _ _ => false end.

End Auth.

Module AuthAccess.
Import Change Auth.

(** [types.VerbType] *)
Inductive VerbType := Read | ReadWrite.

(** [types.AccessAttribute] *)
Record AccessAttribute := mkAccessAttribute { attr_Key : string; attr_Verb : VerbType }.

(** [types.AccessInfo] *)
Record AccessInfo := mkAccessInfo { info_Method : string; info_Attributes : list AccessAttribute }.

(** [types.AuthWebhookRequest] *)
Record AuthWebhookRequest := mkAuthWebhookRequest {
  req_Token : string;
  req_Method : string;
  req_Attributes : list AccessAttribute
}.

(** [types.AuthWebhookResponse] *)
Record AuthWebhookResponse := mkAuthWebhookResponse { Allowed : bool; Reason : string }.

(** The parts of [backend.Config] read by the package. TTLs are
    durations in nanoseconds. *)
Record Config := mkConfig {
  RequireAuth : string -> bool;
  AuthWebhookMaxRetries : Z;
  AuthWebhookCacheAuthTTL : Z;
  AuthWebhookCacheUnauthTTL : Z
}.

(** [be.AuthWebhookCache]: entries keyed by the serialized request, each
    with its expiry time [clock.Now() + ttl] in nanoseconds. The cache type
    is not part of these sources; it is modelled after the spec, a keyed
    mapping with per-entry TTL, and its size bound is left out. *)
Abbreviation authCache := (gmap string (option AuthWebhookResponse * Z)).

(** [AuthWebhookCache.Get(key)] at time [now]: an entry whose expiry is
    past is dropped and reported as a miss. *)
Definition cacheGet (now : Z) (key : string) (cache : authCache)
    : option (option AuthWebhookResponse) * authCache :=
  match cache !! key with
  | Some (v, expireTime) =>
      if expireTime <? now then (None, delete key cache) else (Some v, cache)
  | None => (None, cache)
  end.

(** [AuthWebhookCache.Add(key, value, ttl)] at time [now]. *)
Definition cacheAdd (now : Z) (key : string) (v : option AuthWebhookResponse) (ttl : Z)
    (cache : authCache) : authCache :=
  <[key := (v, now + ttl)]> cache.

(** What [http.Post] yields on one call: a transport error, or a response
    with its status and the outcome of [types.NewAuthWebhookResponse] on
    its body: a decoded response, a malformed body, or a transport error
    while reading it (returned as is, so [errors.As] still finds its
    errno). *)
Inductive bodyResult :=
| BodyDecoded (r : AuthWebhookResponse)
| BodyInvalid (msg : string)
| BodyReadFailed (t : transportErr).
Inductive httpResult := PostFailed (t : transportErr) | PostResponse (status : Z) (body : bodyResult).

Section Access.
(** [key.Key.BSONKey] *)
Variable BSONKey : Key -> string.
(** [json.Marshal] on the request ([None] for a marshalling error). *)
Variable marshal : AuthWebhookRequest -> option string.

(** [func AccessAttributes(pack *change.Pack) []types.AccessAttribute] *)
Definition AccessAttributes (pack : Pack) : list AccessAttribute :=
  let verb := if HasChanges pack then ReadWrite else Read in
  [mkAccessAttribute (BSONKey (DocumentKey pack)) verb].

(** The webhook closure passed to [withExponentialBackoff]. It captures
    [authResp] ([*types.AuthWebhookResponse], initially nil) and assigns
    it when the body is decoded; a failed decode yields nil. *)
Definition webhookCall (post : nat -> httpResult) (k : nat)
    (authResp : option AuthWebhookResponse)
    : (Z * option error) * option AuthWebhookResponse :=
  match post k with
  | PostFailed t => ((0, Some (Transport t)), authResp)
  | PostResponse status body =>
      if negb (StatusOK =? status) then
        ((status, Some (Sentinel UnexpectedStatusCode)), authResp)
      else
        match body with
        | BodyInvalid m => ((status, Some (Decode m)), None)
        | BodyReadFailed t => ((status, Some (Transport t)), None)
        | BodyDecoded r =>
            if negb (Allowed r)
            then ((status, Some (Errorf "%s: %w" [ArgStr (Reason r)]
                                    (Some (Sentinel NotAllowed)))), Some r)
            else ((status, None), Some r)
        end
  end.

(** [func VerifyAccess(ctx, be, info) error]. [token] is
    [TokenFromCtx(ctx)], [post] the responses of the webhook endpoint,
    [ctxDone] the context as seen by the backoff waits, [getTime] and
    [addTime] the clock at the cache lookup and at the cache insertion
    (after the webhook exchange). Returns the error (or [None]) and the
    cache afterwards; [None] when the retry loop has not finished within
    [fuel] iterations. *)
Definition VerifyAccess (fuel : nat) (cfg : Config) (cache : authCache)
    (token : string) (info : AccessInfo) (post : nat -> httpResult)
    (ctxDone : nat -> option ctxErr) (getTime addTime : Z)
    : option (option error * authCache) :=
  if negb (RequireAuth cfg (info_Method info)) then Some (None, cache) else
  match marshal (mkAuthWebhookRequest token (info_Method info) (info_Attributes info)) with
  | None => Some (Some (Marshal "json"), cache)
  | Some cacheKey =>
      let '(hit, cache) := cacheGet getTime cacheKey cache in
      match hit with
      | Some entry =>
          match entry with
          | None => Some (Some NilDeref, cache)
          | Some resp =>
              if negb (Allowed resp)
              then Some (Some (Errorf "%s: %w" [ArgStr (Reason resp)]
                                 (Some (Sentinel NotAllowed))), cache)
              else Some (None, cache)
          end
      | None =>
          match withExponentialBackoff _ (webhookCall post) ctxDone
                  (AuthWebhookMaxRetries cfg) fuel None with
          | Pending _ _ _ => None
          | Finished (Some err) authResp _ =>
              if errorsIs err NotAllowed
              then Some (Some err,
                         cacheAdd addTime cacheKey authResp (AuthWebhookCacheUnauthTTL cfg) cache)
              else Some (Some err, cache)
          | Finished None authResp _ =>
              Some (None, cacheAdd addTime cacheKey authResp (AuthWebhookCacheAuthTTL cfg) cache)
          end
      end
  end.
End Access.

(** What one webhook call leaves in [authResp], for the two outcomes
    that VerifyAccess caches. *)
Definition decisionInvariant (err : option error) (authResp : option AuthWebhookResponse) : Prop :=
  (err = None -> exists resp, authResp = Some resp /\ Allowed resp = true) /\
  (forall e, err = Some e -> errorsIs e NotAllowed = true ->
     exists resp, authResp = Some resp /\ Allowed resp = false /\
       e = Errorf "%s: %w" [ArgStr (Reason resp)] (Some (Sentinel NotAllowed))).

(** Entries of the cache hold a response, never nil. *)
Definition cacheNonNil (cache : authCache) : Prop :=
  forall key entry expireTime, cache !! key = Some (entry, expireTime) -> entry <> None.

End AuthAccess.

(** ** yorkie/packs/packs.go: PushPull *)
Module Packs.
Import Change.

(** [db.ClientInfo]: its hex ID and its per-document checkpoints. *)
Record ClientInfo := mkClientInfo {
  ci_ID : string;
  ci_Checkpoints : list (string * checkpoint)
}.

(** [db.DocInfo] *)
Record DocInfo := mkDocInfo { di_ID : string; di_Key : Key; di_ServerSeq : Z }.

(** [packs.ServerPack] *)
Record ServerPack := mkServerPack {
  sp_DocumentKey : Key;
  sp_Checkpoint : checkpoint;
  sp_Changes : list Change;
  sp_Snapshot : list Byte.byte;
  sp_MinSyncedTicket : option Ticket
}.

Definition setMinSyncedTicket (p : ServerPack) (t : Ticket) : ServerPack :=
  {| sp_DocumentKey := sp_DocumentKey p; sp_Checkpoint := sp_Checkpoint p;
     sp_Changes := sp_Changes p; sp_Snapshot := sp_Snapshot p;
     sp_MinSyncedTicket := Some t |}.

(** Errors of the storage and coordinator layers. *)
Definition error := string.

Inductive result (A : Type) := Ok (a : A) | Err (e : error).
Arguments Ok {A} a.
Arguments Err {A} e.

(** [types.DocEventType] and [sync.DocEvent] *)
Inductive DocEventType := DocumentsChangedEvent | DocumentsWatchedEvent | DocumentsUnwatchedEvent.

Record DocEvent := mkDocEvent {
  ev_Type : DocEventType;
  ev_Publisher : ActorID;
  ev_DocumentKeys : list Key
}.

(** Effects of the detached snapshot goroutine, in order. *)
Inductive bgEvent :=
| BgLogError (e : error)
| BgTryLock (key : string) (acquired : bool)
| BgPublish (publisher : ActorID) (ev : DocEvent)
| BgStoreSnapshot (docInfo : DocInfo) (ticket : Ticket)
| BgUnlock (key : string).

(** Effects of the synchronous path, in order: the storage calls and the
    launch of the goroutine (with the effects it performs when it runs). *)
Inductive event :=
| EvCreateChangeInfos (docInfo : DocInfo) (initialServerSeq : Z) (changes : list Change)
| EvUpdateClientInfoAfterPushPull (clientInfo : ClientInfo) (docInfo : DocInfo)
| EvUpdateAndFindMinSyncedTicket (clientInfo : ClientInfo) (docID : string) (serverSeq : Z)
| EvAttachGoroutine (task : list bgEvent).

(** A writer-and-error monad for the synchronous path. *)
Definition M (A : Type) : Type := (list event * result A)%type.

Definition ret {A} (a : A) : M A := ([], Ok a).
Definition fail {A} (e : error) : M A := ([], Err e).
Definition emit (ev : event) : M unit := ([ev], Ok tt).
Definition bind {A B} (m : M A) (k : A -> M B) : M B :=
  match m with
  | (tr, Ok a) => let '(tr', r) := k a in (tr ++ tr', r)
  | (tr, Err e) => (tr, Err e)
  end.

(** A Go [(T, error)] result lifted into [M]. *)
Definition lift {A} (r : result A) : M A := ([], r).
(** A Go [error] lifted into [M]. *)
Definition check (e : option error) : M unit :=
  match e with Some e => fail e | None => ret tt end.

Notation "'let*' x := m 'in' k" := (bind m (fun x => k))
  (at level 200, x binder, m at level 100, k at level 200).

Section PushPull.
(** [key.Key.BSONKey] *)
Variable BSONKey : Key -> string.

(** Collaborators outside this file, as the code calls them. *)
Variable pushChanges :
  ClientInfo -> DocInfo -> Pack -> Z -> DocInfo * result (checkpoint * list Change).
Variable pullPack :
  ClientInfo -> DocInfo -> Pack -> checkpoint -> Z -> result ServerPack.
Variable UpdateCheckpoint : ClientInfo -> string -> checkpoint -> result ClientInfo.
Variable CreateChangeInfos : DocInfo -> Z -> list Change -> option error.
Variable UpdateClientInfoAfterPushPull : ClientInfo -> DocInfo -> option error.
Variable UpdateAndFindMinSyncedTicket : ClientInfo -> string -> Z -> result Ticket.
Variable ActorIDFromHex : string -> result ActorID.
Variable NewLocker : string -> option error.
Variable TryLock : string -> option error.
Variable Unlock : string -> option error.
Variable storeSnapshot : DocInfo -> Ticket -> option error.

(** [func NewSnapshotKey(documentKey *key.Key) sync.Key] *)
Definition NewSnapshotKey (k : Key) : string := "snapshot-" ++ BSONKey k.

(** [func NewPushPullKey(documentKey *key.Key) sync.Key] *)
Definition NewPushPullKey (k : Key) : string := "pushpull-" ++ BSONKey k.

(** The deferred [locker.Unlock]. *)
Definition unlockEffects (key : string) : list bgEvent :=
  BgUnlock key :: match Unlock key with Some e => [BgLogError e] | None => [] end.

(** The goroutine attached in step 05. *)
Definition snapshotTask (clientInfo : ClientInfo) (docInfo : DocInfo)
    (reqPack : Pack) (minSyncedTicket : Ticket) : list bgEvent :=
  match ActorIDFromHex (ci_ID clientInfo) with
  | Err e => [BgLogError e]
  | Ok publisherID =>
      let key := NewSnapshotKey (DocumentKey reqPack) in
      match NewLocker key with
      | Some e => [BgLogError e]
      | None =>
          match TryLock key with
          | Some _ => [BgTryLock key false]
          | None =>
              [BgTryLock key true;
               BgPublish publisherID
                 (mkDocEvent DocumentsChangedEvent publisherID [DocumentKey reqPack]);
               BgStoreSnapshot docInfo minSyncedTicket]
              ++ match storeSnapshot docInfo minSyncedTicket with
                 | Some e => [BgLogError e]
                 | None => []
                 end
              ++ unlockEffects key
          end
      end
  end.

(** [func PushPull(ctx, be, clientInfo, docInfo, reqPack)], returning a
  [*ServerPack] or an error. *)
Definition PushPull (clientInfo : ClientInfo) (docInfo : DocInfo) (reqPack : Pack)
    : M ServerPack :=
  let initialServerSeq := di_ServerSeq docInfo in
  (* 01. push changes. *)
  let '(docInfo, pushed) := pushChanges clientInfo docInfo reqPack initialServerSeq in
  let* '(pushedCP, pushedChanges) := lift pushed in
  (* 02. pull change pack. *)
  let* respPack := lift (pullPack clientInfo docInfo reqPack pushedCP initialServerSeq) in
  let* clientInfo := lift (UpdateCheckpoint clientInfo (di_ID docInfo) (sp_Checkpoint respPack)) in
  (* 03. store pushed changes, document info and checkpoint of the client. *)
  let* _ := (if (0 <? Z.of_nat (length pushedChanges))%Z
             then let* _ := emit (EvCreateChangeInfos docInfo initialServerSeq pushedChanges) in
                  check (CreateChangeInfos docInfo initialServerSeq pushedChanges)
             else ret tt) in
  let* _ := emit (EvUpdateClientInfoAfterPushPull clientInfo docInfo) in
  let* _ := check (UpdateClientInfoAfterPushPull clientInfo docInfo) in
  (* 04. update and find min synced ticket, at the requested seq. *)
  let reqSeq := cp_serverSeq (Checkpoint reqPack) in
  let* _ := emit (EvUpdateAndFindMinSyncedTicket clientInfo (di_ID docInfo) reqSeq) in
  let* minSyncedTicket := lift (UpdateAndFindMinSyncedTicket clientInfo (di_ID docInfo) reqSeq) in
  let respPack := setMinSyncedTicket respPack minSyncedTicket in
  (* 05. publish document change event then store snapshot asynchronously. *)
  let* _ := (if HasChanges reqPack
             then emit (EvAttachGoroutine (snapshotTask clientInfo docInfo reqPack minSyncedTicket))
             else ret tt) in
  ret respPack.
End PushPull.

End Packs.

(** Effects of the snapshot goroutine that must wait for the lock. *)
Definition isPublishOrStore (e : Packs.bgEvent) : bool :=
  match e with
  | Packs.BgPublish _ _ | Packs.BgStoreSnapshot _ _ => true
  | _ => false
  end.

(** ** Readings of spec sentences, to be compared with the code *)
Module SpecReading.
Import Auth AuthAccess.

(** Spec 4.3.1, "Retry up to maxRetries + 1 attempts": however long the
    loop runs, it has called the webhook at most [maxRetries + 1] times. *)
Definition retry_bound : Prop :=
  forall (St : Type) (webhookFn : nat -> St -> (Z * option error) * St)
         (ctxDone : nat -> option ctxErr) (maxRetries : Z) (st0 : St) (fuel : nat),
    0 <= maxRetries <= MaxUint64 ->
    (callsOf (withExponentialBackoff St webhookFn ctxDone maxRetries fuel st0)
     <= Z.to_nat maxRetries + 1)%nat.

(** Spec 4.3.1: a result is retriable when the transport error is a
    connection reset or the HTTP status is 500, 502, 503, 504 or 429. *)
Definition spec_retriable (r : httpResult) : Prop :=
  r = PostFailed (TErrno ECONNRESET) \/
  exists status body, r = PostResponse status body /\ In status [500; 502; 503; 504; 429].

(** One webhook attempt on the endpoint's response [r]: [(statusCode, err)]. *)
Definition attempt (r : httpResult) (authResp : option AuthWebhookResponse)
    : Z * option error :=
  fst (webhookCall (fun _ => r) 0 authResp).
End SpecReading.

(** Concrete inputs used by the counterexamples and witnesses. *)
Module Fixtures.
Import Auth AuthAccess.

(** A webhook that always answers 503, under a context never canceled. *)
Definition always503 : nat -> unit -> (Z * option error) * unit :=
  fun _ st => ((StatusServiceUnavailable, Some (Sentinel UnexpectedStatusCode)), st).

Definition neverDone : nat -> option ctxErr := fun _ => None.

Definition oneKey : AuthWebhookRequest -> option string := fun _ => Some "req".
Definition cfgNoRetry : Config := mkConfig (fun _ => true) 0 60 30.
Definition post503 : nat -> httpResult := fun _ => PostResponse 503 (BodyInvalid "").

Definition post502 : nat -> httpResult := fun _ => PostResponse 502 (BodyInvalid "").

Definition postDeny : nat -> httpResult :=
  fun _ => PostResponse 200 (BodyDecoded (mkAuthWebhookResponse false "no")).
End Fixtures.

(** * Theorems *)

(** ** Change identifiers *)
Section ChangeIDProofs.
Import Change.

Lemma wrap64_small (z : Z) : 0 <= z <= MaxUint64 -> wrap64 z = z.
Proof. intros H. unfold wrap64, MaxUint64 in *. apply Z.mod_small. lia. Qed.

(** C2 (as stated fails): at lamport [2^64 - 1] the [else] branch wraps
    to 0, so the result lamport is below the receiver's lamport. *)
Lemma SyncLamport_wraps_at_max :
  ~ (forall (id : ID) (L' : Z), wf id -> 0 <= L' <= MaxUint64 ->
       lamport (SyncLamport id L') >= Z.max (lamport id) L' /\
       (L' <= lamport id -> lamport (SyncLamport id L') > lamport id)).
Proof.
  intros H.
  destruct (H (NewID 0 MaxUint64 []) 0) as [H1 H2].
  - unfold wf, MaxUint32, MaxUint64; simpl; lia.
  - unfold MaxUint64; lia.
  - vm_compute in H1. apply H1. reflexivity.
Qed.

(** C2 (amended): for every ID, [SyncLamport L'] yields lamport [L'] when
    [L' > L] and [(L + 1) mod 2^64] otherwise; when moreover
    [L < 2^64 - 1] the result is at least [max L L'], and above [L] when
    [L' <= L]. *)
Theorem SyncLamport_lamport (id : ID) (L' : Z) :
  lamport (SyncLamport id L') =
    (if lamport id <? L' then L' else (lamport id + 1) mod 2 ^ 64) /\
  (0 <= lamport id < MaxUint64 ->
     lamport (SyncLamport id L') >= Z.max (lamport id) L' /\
     (L' <= lamport id -> lamport (SyncLamport id L') > lamport id)).
Proof.
  unfold SyncLamport.
  destruct (Z.ltb_spec (lamport id) L') as [Hlt | Hge]; simpl.
  - split; [reflexivity | intros _; split; lia].
  - split; [reflexivity|]. intros Hrange.
    rewrite wrap64_small by lia. split; lia.
Qed.

Lemma SyncLamport_lamport_witness :
  0 <= lamport (NewID 1 5 []) < MaxUint64 /\
  lamport (SyncLamport (NewID 1 5 []) 3) > lamport (NewID 1 5 []) /\
  lamport (SyncLamport (NewID 1 MaxUint64 []) 3) = 0.
Proof.
  assert (Hr : 0 <= lamport (NewID 1 5 []) < MaxUint64) by (unfold MaxUint64; simpl; lia).
  split; [exact Hr|]. split.
  - apply (proj2 (SyncLamport_lamport (NewID 1 5 []) 3) Hr). simpl; lia.
  - rewrite (proj1 (SyncLamport_lamport (NewID 1 MaxUint64 []) 3)). reflexivity.
Defined.

(** C9: [Next], [SyncLamport] and [SetActor] build a fresh ID whose
    [serverSeq] is nil, whatever the receiver's; [SetServerSeq] changes
    only [serverSeq]. *)
Theorem ID_ops_serverSeq (id : ID) (L' : Z) (actor : ActorID) (s : option Z) :
  serverSeq (Next id) = None /\
  serverSeq (SyncLamport id L') = None /\
  serverSeq (SetActor id actor) = None /\
  serverSeq (SetServerSeq id s) = s /\
  clientSeq (SetServerSeq id s) = clientSeq id /\
  lamport (SetServerSeq id s) = lamport id /\
  actorID (SetServerSeq id s) = actorID id.
Proof.
  unfold SyncLamport.
  repeat split; try reflexivity.
  destruct (lamport id <? L'); reflexivity.
Qed.

(** C10: [Next] on [clientSeq = 2^32 - 1] wraps [clientSeq] to 0, below
    the receiver's; the lamport is incremented modulo [2^64]. *)
Theorem Next_clientSeq_wraps (id : ID) (H : clientSeq id = MaxUint32) :
  clientSeq (Next id) = 0 /\
  clientSeq (Next id) < clientSeq id /\
  lamport (Next id) = (lamport id + 1) mod 2 ^ 64.
Proof.
  unfold Next, wrap32, wrap64; simpl. rewrite H. unfold MaxUint32.
  split; [reflexivity | split; [vm_compute; reflexivity | reflexivity]].
Qed.

Lemma Next_clientSeq_wraps_witness :
  clientSeq (NewID MaxUint32 MaxUint64 []) = MaxUint32 /\
  clientSeq (Next (NewID MaxUint32 MaxUint64 [])) = 0.
Proof.
  split; [reflexivity|].
  apply (Next_clientSeq_wraps (NewID MaxUint32 MaxUint64 [])). reflexivity.
Defined.

End ChangeIDProofs.

(** ** The webhook retry loop *)
Section BackoffProofs.
Import Auth.

Variable St : Type.
Variable webhookFn : nat -> St -> (Z * option error) * St.
Variable ctxDone : nat -> option ctxErr.
Variable maxRetries : Z.

Lemma backoffLoop_calls_bound (n : nat) (r sc : Z) (st : St) (k : nat) :
  0 <= maxRetries < MaxUint64 -> 0 <= r <= maxRetries + 1 ->
  (callsOf (backoffLoop St webhookFn ctxDone maxRetries n r sc st k)
   <= k + Z.to_nat (maxRetries + 1 - r))%nat.
Proof.
  intros Hmax. revert r st k.
  induction n as [|n IH]; intros r st k Hr; simpl.
  - lia.
  - destruct (Z.leb_spec r maxRetries) as [Hle | Hgt].
    + destruct (webhookFn k st) as [[sc' err] st'].
      destruct (negb (shouldRetry sc' err)).
      * destruct (isUnexpectedStatusCode err); simpl; lia.
      * destruct (ctxDone k) as [c|]; simpl; [lia|].
        rewrite wrap64_small by (unfold MaxUint64 in *; lia).
        specialize (IH (r + 1) st' (S k) ltac:(lia)). lia.
    + simpl. lia.
Qed.

Lemma backoffLoop_finishes (n : nat) (r sc : Z) (st : St) (k : nat) :
  0 <= maxRetries < MaxUint64 -> 0 <= r <= maxRetries + 1 ->
  (Z.to_nat (maxRetries + 2 - r) <= n)%nat ->
  isFinished (backoffLoop St webhookFn ctxDone maxRetries n r sc st k) = true.
Proof.
  intros Hmax. revert r st k.
  induction n as [|n IH]; intros r st k Hr Hn; simpl.
  - lia.
  - destruct (Z.leb_spec r maxRetries) as [Hle | Hgt]; [|reflexivity].
    destruct (webhookFn k st) as [[sc' err] st'].
    destruct (negb (shouldRetry sc' err)).
    + destruct (isUnexpectedStatusCode err); reflexivity.
    + destruct (ctxDone k) as [c|]; [reflexivity|].
      rewrite wrap64_small by (unfold MaxUint64 in *; lia).
      apply IH; lia.
Qed.

(** C3 (amended): when [maxRetries < 2^64 - 1] the loop calls the webhook
    at most [maxRetries + 1] times, and it has returned after
    [maxRetries + 2] iterations. *)
Theorem backoff_retry_bound (st0 : St) (Hmax : 0 <= maxRetries < MaxUint64) :
  (forall fuel : nat,
      (callsOf (withExponentialBackoff St webhookFn ctxDone maxRetries fuel st0)
       <= Z.to_nat maxRetries + 1)%nat) /\
  isFinished (withExponentialBackoff St webhookFn ctxDone maxRetries
                (Z.to_nat maxRetries + 2) st0) = true.
Proof.
  unfold withExponentialBackoff. split.
  - intros fuel. pose proof (backoffLoop_calls_bound fuel 0 0 st0 0 Hmax) as H.
    specialize (H ltac:(lia)). lia.
  - apply backoffLoop_finishes; lia.
Qed.

End BackoffProofs.

Section BackoffCounterexample.
Import Auth Fixtures.


Lemma wrap64_range (z : Z) : 0 <= wrap64 z <= MaxUint64.
Proof.
  unfold wrap64, MaxUint64.
  pose proof (Z.mod_pos_bound z (2 ^ 64) ltac:(lia)). lia.
Qed.

(** With [maxRetries = 2^64 - 1] every [retries] value passes the guard
    [retries <= maxRetries]: the counter wraps and the loop keeps calling. *)
Lemma backoffLoop_never_returns_at_max (n : nat) (r : Z) (k : nat) :
  0 <= r <= MaxUint64 ->
  isFinished (backoffLoop unit always503 neverDone MaxUint64 n r 0 tt k) = false /\
  callsOf (backoffLoop unit always503 neverDone MaxUint64 n r 0 tt k) = (k + n)%nat.
Proof.
  revert r k. induction n as [|n IH]; intros r k Hr; simpl.
  - split; [reflexivity | lia].
  - destruct (Z.leb_spec r MaxUint64) as [_ | Hgt]; [|lia].
    simpl. destruct (IH (wrap64 (r + 1)) (S k) (wrap64_range _)) as [H1 H2].
    split; [exact H1 | rewrite H2; lia].
Qed.

(** C3 (as stated fails): with [maxRetries = 2^64 - 1] the loop has made
    [2^64 + 1] webhook calls, more than [maxRetries + 1], and has not
    returned. *)
Lemma backoff_unbounded_at_max_retries : ~ SpecReading.retry_bound.
Proof.
  unfold SpecReading.retry_bound. intros H.
  destruct (ex_intro (fun N => N = (Z.to_nat (2 ^ 64) + 1)%nat) _ eq_refl) as [N HN].
  specialize (H unit always503 neverDone MaxUint64 tt N).
  unfold withExponentialBackoff in H.
  destruct (backoffLoop_never_returns_at_max N 0 0) as [_ Hc].
  { unfold MaxUint64; lia. }
  rewrite Hc in H. clear Hc.
  assert (Hr : 0 <= MaxUint64 <= MaxUint64) by (unfold MaxUint64; lia).
  specialize (H Hr). subst N. unfold MaxUint64 in H. lia.
Qed.

Lemma backoff_retry_bound_witness :
  0 <= 2 < MaxUint64 /\
  isFinished (withExponentialBackoff unit always503 neverDone 2 4 tt) = true.
Proof.
  split; [unfold MaxUint64; lia|].
  apply (backoff_retry_bound unit always503 neverDone 2 tt). unfold MaxUint64; lia.
Defined.

End BackoffCounterexample.

(** ** Which webhook outcomes are retried *)
Section ShouldRetryProofs.
Import Auth AuthAccess SpecReading.

Lemma retry_status_In (status : Z) :
  ((status =? StatusInternalServerError) || (status =? StatusServiceUnavailable)
   || (status =? StatusGatewayTimeout) || (status =? StatusTooManyRequests)) = true
  <-> In status [500; 503; 504; 429].
Proof.
  unfold StatusInternalServerError, StatusServiceUnavailable,
    StatusGatewayTimeout, StatusTooManyRequests.
  rewrite !orb_true_iff, !Z.eqb_eq. simpl. intuition lia.
Qed.

(** C5 (as stated fails): a 502 answer is not retried. *)
Lemma status_502_not_retried :
  ~ (forall (r : httpResult) (st : option AuthWebhookResponse),
        shouldRetry (fst (attempt r st)) (snd (attempt r st)) = true
        <-> spec_retriable r).
Proof.
  intros H. destruct (H (PostResponse 502 (BodyInvalid "")) None) as [_ H2].
  assert (Hs : spec_retriable (PostResponse 502 (BodyInvalid ""))).
  { right. exists 502, (BodyInvalid ""). split; [reflexivity | simpl; tauto]. }
  specialize (H2 Hs). vm_compute in H2. discriminate.
Qed.

(** One call of the VerifyAccess closure is retried iff the POST failed
    with a connection reset, the body of a 200 response could not be read
    because of a connection reset, or the status is 500, 503, 504 or 429. *)
Lemma webhookCall_retry_iff (post : nat -> httpResult) (k : nat)
    (st : option AuthWebhookResponse) :
  shouldRetry (fst (fst (webhookCall post k st))) (snd (fst (webhookCall post k st))) = true
  <-> post k = PostFailed (TErrno ECONNRESET)
      \/ post k = PostResponse 200 (BodyReadFailed (TErrno ECONNRESET))
      \/ exists status body, post k = PostResponse status body /\ In status [500; 503; 504; 429].
Proof.
  unfold webhookCall. destruct (post k) as [[errno | msg] | status body].
  - unfold shouldRetry; simpl. rewrite Z.eqb_eq. split.
    + intros ->. left. reflexivity.
    + intros [H | [H | (s & b & H & _)]]; congruence.
  - simpl. split; [discriminate|].
    intros [H | [H | (s & b & H & _)]]; discriminate.
  - destruct (Z.eqb_spec StatusOK status) as [Hok | Hok]; simpl.
    + subst status. unfold StatusOK.
      assert (Hno : ~ In 200 [500; 503; 504; 429]) by (simpl; lia).
      destruct body as [resp | m | [errno | msg]]; [destruct (Allowed resp) | | |]; simpl.
      4: { unfold shouldRetry; simpl. rewrite Z.eqb_eq. split.
           - intros ->. right; left. reflexivity.
           - intros [H | [H | (s & b & H & Hin)]];
               [discriminate | injection H as ->; reflexivity
               | injection H as <- _; contradiction]. }
      all: split; [discriminate|];
        intros [H | [H | (s & b & H & Hin)]];
        first [discriminate | injection H as <- _; contradiction].
    + unfold shouldRetry; simpl. rewrite retry_status_In. split.
      * intros Hin. right; right. exists status, body. tauto.
      * intros [H | [H | (s & b & H & Hin)]]; [discriminate | |].
        -- injection H as -> _. unfold StatusOK in Hok. congruence.
        -- injection H as <- _. exact Hin.
Qed.

(** C5 (amended): an attempt is retried iff its transport error, from the
    POST or from reading the body of a 200 response, is a connection
    reset, or its status is 500, 503, 504 or 429; every other transport
    error and every other status (502 among them) ends the retries. *)
Theorem shouldRetry_attempt (r : httpResult) (st : option AuthWebhookResponse) :
  shouldRetry (fst (attempt r st)) (snd (attempt r st)) = true
  <-> r = PostFailed (TErrno ECONNRESET)
      \/ r = PostResponse 200 (BodyReadFailed (TErrno ECONNRESET))
      \/ exists status body, r = PostResponse status body /\ In status [500; 503; 504; 429].
Proof. unfold attempt. exact (webhookCall_retry_iff (fun _ => r) 0 st). Qed.

End ShouldRetryProofs.

(** ** The timeout error *)
Section TimeoutStatusProofs.
Import Auth AuthAccess Fixtures.


(** C6 (code bug): the webhook answers 503 and the retries run out; the
    [WebhookTimeout] error carries status 0, not 503, because the loop
    body's [statusCode, err :=] declares a fresh [statusCode] and the
    outer one read by the final [fmt.Errorf] stays 0. *)
Theorem timeout_reports_status_zero :
  post503 0 = PostResponse 503 (BodyInvalid "") /\
  VerifyAccess oneKey 5 cfgNoRetry ∅ "token" (mkAccessInfo "PushPull" []) post503 neverDone 0 0
  = Some (Some (Errorf "unexpected status code from webhook %d: %w"
                  [ArgInt 0] (Some (Sentinel WebhookTimeout))), ∅).
Proof. split; vm_compute; reflexivity. Qed.

End TimeoutStatusProofs.

(** ** VerifyAccess and its cache *)
Section VerifyAccessProofs.
Import Auth AuthAccess.

Variable marshal : AuthWebhookRequest -> option string.


Lemma webhookCall_decision (post : nat -> httpResult) (k : nat) (st : option AuthWebhookResponse) :
  decisionInvariant (snd (fst (webhookCall post k st))) (snd (webhookCall post k st)).
Proof.
  unfold webhookCall, decisionInvariant.
  destruct (post k) as [t | status body].
  - simpl. split; [discriminate|]. intros e He. inversion He; subst. destruct t; discriminate.
  - destruct (StatusOK =? status); simpl.
    + destruct body as [resp | m | t]; simpl.
      * destruct (Allowed resp) eqn:Ha; simpl.
        -- split; [eauto | intros ? ?; discriminate].
        -- split; [discriminate|]. intros e He _. inversion He; subst. eauto.
      * split; [discriminate|]. intros e He. inversion He; subst. discriminate.
      * split; [discriminate|]. intros e He. inversion He; subst. destruct t; discriminate.
    + split; [discriminate|]. intros e He. inversion He; subst. discriminate.
Qed.

Lemma backoffLoop_decision (post : nat -> httpResult) (ctxDone : nat -> option ctxErr)
    (maxRetries : Z) (n : nat) (r sc : Z) (st : option AuthWebhookResponse) (k : nat)
    (ret : option error) (st' : option AuthWebhookResponse) (calls : nat) :
  backoffLoop _ (webhookCall post) ctxDone maxRetries n r sc st k = Finished ret st' calls ->
  decisionInvariant ret st'.
Proof.
  revert r st k. induction n as [|n IH]; intros r st k; simpl; [discriminate|].
  destruct (r <=? maxRetries).
  - pose proof (webhookCall_decision post k st) as Hd.
    destruct (webhookCall post k st) as [[sc' err] st''] eqn:Hcall. simpl in Hd.
    destruct (negb (shouldRetry sc' err)).
    + destruct (isUnexpectedStatusCode err); intros Hf; inversion Hf; subst; [|exact Hd].
      split; [discriminate|]. intros e He. inversion He; subst. discriminate.
    + destruct (ctxDone k) as [c|]; [|apply IH].
      intros Hf; inversion Hf; subst. split; [discriminate|]. intros e He. inversion He; subst. discriminate.
  - intros Hf; inversion Hf; subst. split; [discriminate|]. intros e He. inversion He; subst. discriminate.
Qed.


End VerifyAccessProofs.

Section VerifyAccessWitness.
Import Auth AuthAccess Fixtures.



End VerifyAccessWitness.

(** ** AccessAttributes *)
Section AccessAttributesProofs.
Import Change AuthAccess.

(** C7: one attribute, keyed by the document key, with verb [Read] when
    the pack has no changes and [ReadWrite] otherwise. *)
Theorem AccessAttributes_single (BSONKey : Key -> string) (pack : Pack) :
  exists attr, AccessAttributes BSONKey pack = [attr] /\
    attr_Key attr = BSONKey (DocumentKey pack) /\
    (Changes pack = [] -> attr_Verb attr = Read) /\
    (Changes pack <> [] -> attr_Verb attr = ReadWrite).
Proof.
  unfold AccessAttributes, HasChanges. eexists. split; [reflexivity|].
  simpl. split; [reflexivity|].
  destruct (Changes pack); split; intros H; congruence.
Qed.

End AccessAttributesProofs.

(** ** PushPull *)
Section PushPullProofs.
Import Change Packs.

Variable BSONKey : Key -> string.
Variable pushChanges :
  ClientInfo -> DocInfo -> Pack -> Z -> DocInfo * result (checkpoint * list Change).
Variable pullPack : ClientInfo -> DocInfo -> Pack -> checkpoint -> Z -> result ServerPack.
Variable UpdateCheckpoint : ClientInfo -> string -> checkpoint -> result ClientInfo.
Variable CreateChangeInfos : DocInfo -> Z -> list Change -> option error.
Variable UpdateClientInfoAfterPushPull : ClientInfo -> DocInfo -> option error.
Variable UpdateAndFindMinSyncedTicket : ClientInfo -> string -> Z -> result Ticket.
Variable ActorIDFromHex : string -> result ActorID.
Variable NewLocker : string -> option error.
Variable TryLock : string -> option error.
Variable Unlock : string -> option error.
Variable storeSnapshot : DocInfo -> Ticket -> option error.

Local Abbreviation pushPull := (PushPull BSONKey pushChanges pullPack UpdateCheckpoint
  CreateChangeInfos UpdateClientInfoAfterPushPull UpdateAndFindMinSyncedTicket
  ActorIDFromHex NewLocker TryLock Unlock storeSnapshot).

Local Abbreviation task := (snapshotTask BSONKey ActorIDFromHex NewLocker TryLock Unlock storeSnapshot).

(** Case analysis on every collaborator call of the synchronous path. *)
Ltac split_calls :=
  repeat match goal with
         | |- context [match ?x with _ => _ end] =>
             lazymatch x with
             | pullPack _ _ _ _ _ => destruct x eqn:?
             | UpdateCheckpoint _ _ _ => destruct x eqn:?
             | CreateChangeInfos _ _ _ => destruct x eqn:?
             | UpdateClientInfoAfterPushPull _ _ => destruct x eqn:?
             | UpdateAndFindMinSyncedTicket _ _ _ => destruct x eqn:?
             | (_ <? _) => destruct x eqn:?
             | HasChanges _ => destruct x eqn:?
             end
         end.

Lemma unlockEffects_quiet (key : string) :
  Forall (fun e => isPublishOrStore e = false) (unlockEffects Unlock key).
Proof. unfold unlockEffects. destruct (Unlock key); repeat constructor. Qed.

(** Inside the goroutine, publication and snapshot come after a
    successful [TryLock] of the snapshot key; after a failed one, nothing
    is published or stored. *)
Lemma snapshotTask_gated (clientInfo : ClientInfo) (docInfo : DocInfo)
    (reqPack : Pack) (t : Ticket) :
  let evs := task clientInfo docInfo reqPack t in
  (forall ev, In ev evs -> isPublishOrStore ev = true ->
     exists pre post,
       evs = pre ++ BgTryLock (NewSnapshotKey BSONKey (DocumentKey reqPack)) true :: post /\
       Forall (fun e => isPublishOrStore e = false) pre /\ In ev post) /\
  (forall key, In (BgTryLock key false) evs -> Forall (fun e => isPublishOrStore e = false) evs).
Proof.
  unfold snapshotTask. simpl.
  destruct (ActorIDFromHex (ci_ID clientInfo)) as [publisherID | e].
  - destruct (NewLocker (NewSnapshotKey BSONKey (DocumentKey reqPack))) as [e|].
    + split.
      * intros ev [<- | []]; discriminate.
      * intros key [H | []]; discriminate.
    + destruct (TryLock (NewSnapshotKey BSONKey (DocumentKey reqPack))) as [e|].
      * split.
        -- intros ev [<- | []]; discriminate.
        -- intros _ _. repeat constructor.
      * split.
        -- intros ev Hin Hps. exists []. eexists. split; [reflexivity|].
           split; [constructor|].
           destruct Hin as [<- | Hin]; [discriminate | exact Hin].
        -- intros key Hin. exfalso.
           simpl in Hin. destruct Hin as [H | [H | [H | Hin]]]; try discriminate.
           apply in_app_or in Hin. destruct Hin as [Hin | Hin].
           ++ destruct (storeSnapshot docInfo t); simpl in Hin;
                [destruct Hin as [H | []]; discriminate | contradiction].
           ++ unfold unlockEffects in Hin. destruct (Unlock _); simpl in Hin;
                [destruct Hin as [H | [H | []]] | destruct Hin as [H | []]]; discriminate.
  - split.
    + intros ev [<- | []]; discriminate.
    + intros key [H | []]; discriminate.
Qed.

(** C1: the min-synced-ticket update is called with the request pack's
    checkpoint [serverSeq], and on success the ticket it returns is the
    response's [MinSyncedTicket]. *)
Theorem PushPull_minSyncedTicket_reqSeq (clientInfo : ClientInfo) (docInfo : DocInfo)
    (reqPack : Pack) :
  let '(tr, r) := pushPull clientInfo docInfo reqPack in
  (forall ci d s, In (EvUpdateAndFindMinSyncedTicket ci d s) tr ->
     s = cp_serverSeq (Checkpoint reqPack)) /\
  (forall resp, r = Ok resp ->
     exists ci d t,
       In (EvUpdateAndFindMinSyncedTicket ci d (cp_serverSeq (Checkpoint reqPack))) tr /\
       UpdateAndFindMinSyncedTicket ci d (cp_serverSeq (Checkpoint reqPack)) = Ok t /\
       sp_MinSyncedTicket resp = Some t).
Proof.
  unfold PushPull, bind, lift, check, emit, ret, fail.
  destruct (pushChanges clientInfo docInfo reqPack (di_ServerSeq docInfo))
    as [di1 [[pushedCP pushedChanges] | e]]; simpl; [|split; [intros ? ? ? [] | discriminate]].
  split_calls; simpl;
    (split;
     [ intros ci d s Hin; repeat destruct Hin as [Hin | Hin];
       first [ discriminate | contradiction | inversion Hin; subst; reflexivity ]
     | intros resp Hr; first
         [ discriminate
         | injection Hr as <-; do 3 eexists;
           split; [repeat first [left; reflexivity | right] | split; [eassumption | reflexivity]] ] ]).
Qed.

(** C8: the snapshot goroutine is launched only by a successful call
    whose request pack has changes; inside it, the
    [DocumentsChangedEvent] publication and the snapshot store come only
    after [TryLock] of [snapshot-<documentKey>] succeeds, and a failed
    [TryLock] ends it with neither. *)
Theorem PushPull_snapshot_gated (clientInfo : ClientInfo) (docInfo : DocInfo)
    (reqPack : Pack) :
  let '(tr, r) := pushPull clientInfo docInfo reqPack in
  forall evs, In (EvAttachGoroutine evs) tr ->
    HasChanges reqPack = true /\ (exists resp, r = Ok resp) /\
    (forall ev, In ev evs -> isPublishOrStore ev = true ->
       exists pre post,
         evs = pre ++ BgTryLock (NewSnapshotKey BSONKey (DocumentKey reqPack)) true :: post /\
         Forall (fun e => isPublishOrStore e = false) pre /\ In ev post) /\
    (forall key, In (BgTryLock key false) evs ->
       Forall (fun e => isPublishOrStore e = false) evs).
Proof.
  unfold PushPull, bind, lift, check, emit, ret, fail.
  destruct (pushChanges clientInfo docInfo reqPack (di_ServerSeq docInfo))
    as [di1 [[pushedCP pushedChanges] | e]]; simpl; [|intros ? []].
  split_calls; simpl; intros evs Hin; repeat destruct Hin as [Hin | Hin];
    try discriminate; try contradiction;
    inversion Hin; subst;
    (split; [first [reflexivity | assumption] | split; [eauto |]]);
    match goal with
    | |- context [snapshotTask _ _ _ _ _ _ ?c ?d ?p ?t] =>
        exact (snapshotTask_gated c d p t)
    end.
Qed.

End PushPullProofs.

(** * Further properties of the code *)

(** ** waitInterval *)
Section WaitIntervalProofs.
Import Auth.

Lemma wrapInt64_range (z : Z) : - 2 ^ 63 <= wrapInt64 z < 2 ^ 63.
Proof.
  unfold wrapInt64. pose proof (Z.mod_pos_bound z (2 ^ 64) ltac:(lia)).
  destruct (Z.ltb_spec (z mod 2 ^ 64) (2 ^ 63)); lia.
Qed.

Lemma wrapInt64_small (z : Z) : - 2 ^ 63 <= z < 2 ^ 63 -> wrapInt64 z = z.
Proof.
  intros Hz. unfold wrapInt64.
  destruct (Z.leb_spec 0 z) as [Hpos | Hneg].
  - rewrite Z.mod_small by lia. destruct (Z.ltb_spec z (2 ^ 63)); lia.
  - replace (z mod 2 ^ 64) with (z + 2 ^ 64).
    + destruct (Z.ltb_spec (z + 2 ^ 64) (2 ^ 63)); lia.
    + apply Z.mod_unique with (q := -1); lia.
Qed.

Lemma wrapInt64_mod (z : Z) : wrapInt64 z mod 2 ^ 64 = z mod 2 ^ 64.
Proof.
  unfold wrapInt64. destruct (z mod 2 ^ 64 <? 2 ^ 63).
  - apply Z.mod_mod. lia.
  - rewrite Zminus_mod, Z.mod_mod, Z.mod_same, Z.sub_0_r, Z.mod_mod by lia. reflexivity.
Qed.

Lemma wrapInt64_eq_mod (a b : Z) : a mod 2 ^ 64 = b mod 2 ^ 64 -> wrapInt64 a = wrapInt64 b.
Proof. unfold wrapInt64. intros ->. reflexivity. Qed.

(** The two wrapping multiplications equal one wrapping of the product. *)
Lemma waitInterval_interval (r : Z) :
  wrapInt64 (wrapInt64 (2 ^ r * 100) * Millisecond) = wrapInt64 (2 ^ r * 100 * Millisecond).
Proof.
  apply wrapInt64_eq_mod.
  rewrite (Z.mul_mod (wrapInt64 _)), wrapInt64_mod, <- Z.mul_mod by lia. reflexivity.
Qed.

(** waitInterval never returns more than [maxWaitInterval]. *)
Theorem waitInterval_le_max (retries maxWaitInterval : Z) (Hr : 0 <= retries <= 62) :
  exists w, waitInterval retries maxWaitInterval = Some w /\ w <= maxWaitInterval.
Proof.
  unfold waitInterval. destruct (Z.leb_spec retries 62) as [_ | H]; [|lia].
  eexists. split; [reflexivity|].
  destruct (Z.ltb_spec maxWaitInterval
              (wrapInt64 (wrapInt64 (2 ^ retries * 100) * Millisecond))); lia.
Qed.

Lemma waitInterval_le_max_witness :
  0 <= 3 <= 62 /\
  exists w, waitInterval 3 500000000 = Some w /\ w <= 500000000.
Proof. split; [lia | apply (waitInterval_le_max 3 500000000); lia]. Defined.

(** Up to 36 retries the wait is [min(maxWaitInterval, 2^r * 100ms)];
    from 37 on, [2^r * 100ms] overflows [int64] and the returned wait is
    below [2^r * 100ms] whatever [maxWaitInterval] is. *)
Theorem waitInterval_exact_then_overflow (retries maxWaitInterval : Z) :
  (0 <= retries <= 36 ->
     waitInterval retries maxWaitInterval
     = Some (Z.min maxWaitInterval (2 ^ retries * 100 * Millisecond))) /\
  (37 <= retries <= 62 ->
     exists w, waitInterval retries maxWaitInterval = Some w /\
       w < 2 ^ retries * 100 * Millisecond).
Proof.
  unfold waitInterval. rewrite waitInterval_interval. split; intros Hr.
  - destruct (Z.leb_spec retries 62) as [_ | H]; [|lia].
    assert (Hp : 0 < 2 ^ retries <= 2 ^ 36).
    { split; [apply Z.pow_pos_nonneg; lia | apply Z.pow_le_mono_r; lia]. }
    rewrite wrapInt64_small by (unfold Millisecond; lia).
    f_equal. destruct (Z.ltb_spec maxWaitInterval (2 ^ retries * 100 * Millisecond)); lia.
  - destruct (Z.leb_spec retries 62) as [_ | H]; [|lia].
    assert (Hp : 2 ^ 37 <= 2 ^ retries) by (apply Z.pow_le_mono_r; lia).
    pose proof (wrapInt64_range (2 ^ retries * 100 * Millisecond)).
    eexists. split; [reflexivity|].
    destruct (Z.ltb_spec maxWaitInterval (wrapInt64 (2 ^ retries * 100 * Millisecond)));
      unfold Millisecond in *; lia.
Qed.

Lemma waitInterval_exact_then_overflow_witness :
  waitInterval 3 10000000000 = Some 800000000 /\
  exists w, waitInterval 37 (10 ^ 20) = Some w /\ w < 2 ^ 37 * 100 * Millisecond.
Proof.
  split.
  - rewrite (proj1 (waitInterval_exact_then_overflow 3 10000000000) ltac:(lia)).
    reflexivity.
  - apply (proj2 (waitInterval_exact_then_overflow 37 (10 ^ 20))). lia.
Defined.

End WaitIntervalProofs.

(** ** withExponentialBackoff on its own *)
Section BackoffExtraProofs.
Import Auth.

Variable St : Type.
Variable webhookFn : nat -> St -> (Z * option error) * St.
Variable ctxDone : nat -> option ctxErr.
Variable maxRetries : Z.

Lemma backoffLoop_all_retry (Hretry : forall k st,
      shouldRetry (fst (fst (webhookFn k st))) (snd (fst (webhookFn k st))) = true)
    (Hctx : forall k, ctxDone k = None) (Hmax : 0 <= maxRetries < MaxUint64)
    (n : nat) (r sc : Z) (st : St) (k : nat) :
  0 <= r <= maxRetries + 1 -> (Z.to_nat (maxRetries + 2 - r) <= n)%nat ->
  exists st', backoffLoop St webhookFn ctxDone maxRetries n r sc st k
    = Finished (Some (Errorf "unexpected status code from webhook %d: %w"
                       [ArgInt sc] (Some (Sentinel WebhookTimeout))))
               st' (k + Z.to_nat (maxRetries + 1 - r)).
Proof.
  revert r st k. induction n as [|n IH]; intros r st k Hr Hn; simpl; [lia|].
  destruct (Z.leb_spec r maxRetries) as [Hle | Hgt].
  - specialize (Hretry k st).
    destruct (webhookFn k st) as [[sc' err] st'']. simpl in Hretry.
    rewrite Hretry, Hctx. simpl.
    rewrite wrap64_small by (unfold MaxUint64 in *; lia).
    assert (Hr' : 0 <= r + 1 <= maxRetries + 1) by lia.
    assert (Hn' : (Z.to_nat (maxRetries + 2 - (r + 1)) <= n)%nat) by lia.
    destruct (IH (r + 1) st'' (S k) Hr' Hn') as [st' ->].
    exists st'. f_equal. lia.
  - exists st. f_equal. lia.
Qed.

(** When every webhook outcome is retriable and the context is never
    done, the loop calls the webhook exactly [maxRetries + 1] times and
    returns an error wrapping [ErrWebhookTimeout]. *)
Theorem backoff_all_retriable_timeout (st0 : St) (fuel : nat)
    (Hretry : forall k st,
      shouldRetry (fst (fst (webhookFn k st))) (snd (fst (webhookFn k st))) = true)
    (Hctx : forall k, ctxDone k = None) (Hmax : 0 <= maxRetries < MaxUint64)
    (Hfuel : (Z.to_nat maxRetries + 2 <= fuel)%nat) :
  exists e st', withExponentialBackoff St webhookFn ctxDone maxRetries fuel st0
    = Finished (Some e) st' (Z.to_nat maxRetries + 1) /\
    errorsIs e WebhookTimeout = true.
Proof.
  unfold withExponentialBackoff.
  destruct (backoffLoop_all_retry Hretry Hctx Hmax fuel 0 0 st0 0 ltac:(lia) ltac:(lia))
    as [st' ->].
  do 2 eexists. split; [f_equal; lia | reflexivity].
Qed.

End BackoffExtraProofs.

Section BackoffExtraWitness.
Import Auth Fixtures.

Lemma backoff_all_retriable_timeout_witness :
  exists e st', withExponentialBackoff unit always503 neverDone 2 4 tt
    = Finished (Some e) st' 3 /\ errorsIs e WebhookTimeout = true.
Proof.
  apply (backoff_all_retriable_timeout unit always503 neverDone 2 tt 4).
  - intros k st. reflexivity.
  - intros k. reflexivity.
  - unfold MaxUint64. lia.
  - simpl. lia.
Defined.

End BackoffExtraWitness.

(** ** The webhook closure and VerifyAccess *)
Section VerifyAccessExtraProofs.
Import Auth AuthAccess.

Variable marshal : AuthWebhookRequest -> option string.

(** The closure's [(statusCode, err)] does not depend on the captured
    [authResp]. *)
Lemma webhookCall_outcome_state (post : nat -> httpResult) (k : nat)
    (st st' : option AuthWebhookResponse) :
  fst (webhookCall post k st) = fst (webhookCall post k st').
Proof.
  unfold webhookCall. destruct (post k) as [t | status body]; [reflexivity|].
  destruct (negb (StatusOK =? status)); [reflexivity|].
  destruct body as [resp | m | t]; [destruct (negb (Allowed resp))| |]; reflexivity.
Qed.

Lemma webhookCall_unexpected (post : nat -> httpResult) (k : nat)
    (st : option AuthWebhookResponse) (e : error) :
  snd (fst (webhookCall post k st)) = Some e ->
  errorsIs e UnexpectedStatusCode = isUnexpectedStatusCode (Some e).
Proof.
  unfold webhookCall. destruct (post k) as [t | status body].
  - simpl. intros He. inversion He; subst. reflexivity.
  - destruct (negb (StatusOK =? status)); simpl.
    + intros He. inversion He; subst. reflexivity.
    + destruct body as [resp | m | t]; [destruct (negb (Allowed resp))| |]; simpl;
        intros He; inversion He; subst; reflexivity.
Qed.

Lemma backoffLoop_not_unexpected (post : nat -> httpResult) (ctxDone : nat -> option ctxErr)
    (maxRetries : Z) (n : nat) (r sc : Z) (st : option AuthWebhookResponse) (k : nat)
    (e : error) (st' : option AuthWebhookResponse) (calls : nat) :
  backoffLoop _ (webhookCall post) ctxDone maxRetries n r sc st k = Finished (Some e) st' calls ->
  errorsIs e UnexpectedStatusCode = false.
Proof.
  revert r st k. induction n as [|n IH]; intros r st k; simpl; [discriminate|].
  destruct (r <=? maxRetries).
  - pose proof (webhookCall_unexpected post k st) as Hu.
    destruct (webhookCall post k st) as [[sc' err] st''] eqn:Hcall. simpl in Hu.
    destruct (negb (shouldRetry sc' err)).
    + destruct (isUnexpectedStatusCode err) eqn:Hi; intros Hf; inversion Hf; subst;
        [reflexivity|]. rewrite (Hu e eq_refl). exact Hi.
    + destruct (ctxDone k) as [c|]; [|apply IH].
      intros Hf; inversion Hf; subst. reflexivity.
  - intros Hf; inversion Hf; subst. reflexivity.
Qed.

(** Case analysis of one VerifyAccess run: authorization switch,
    marshalling, the retry loop, then the cache lookup. *)
Ltac va_cases cfg post ctxDone fuel cache getTime :=
  unfold VerifyAccess, cacheGet, cacheAdd, withExponentialBackoff;
  destruct (negb (RequireAuth cfg _)); [|
  destruct (marshal _) as [cacheKey|]; [
  destruct (backoffLoop _ (webhookCall post) ctxDone (AuthWebhookMaxRetries cfg) fuel 0 0 None 0)
    as [ret authResp calls | r0 s0 c0] eqn:Hloop;
  destruct (cache !! cacheKey) as [[entry expireTime]|] eqn:Hc;
  [destruct (expireTime <? getTime) eqn:Hexp| | destruct (expireTime <? getTime) eqn:Hexp|];
  simpl |] ].

(** VerifyAccess never returns an error that [errors.Is] matches against
    [ErrUnexpectedStatusCode]: a non-retriable non-200 status is turned
    into a plain formatted error that does not wrap it. *)
Theorem VerifyAccess_never_unexpected_status (fuel : nat) (cfg : Config)
    (cache : authCache) (token : string) (info : AccessInfo)
    (post : nat -> httpResult) (ctxDone : nat -> option ctxErr) (getTime addTime : Z)
    (e : error) (cache' : authCache) :
  VerifyAccess marshal fuel cfg cache token info post ctxDone getTime addTime
  = Some (Some e, cache') ->
  errorsIs e UnexpectedStatusCode = false.
Proof.
  va_cases cfg post ctxDone fuel cache getTime; intros H;
    try discriminate H;
    repeat match type of H with
           | context [if ?b then _ else _] => destruct b
           | context [match ?x with Some _ => _ | None => _ end] =>
               lazymatch x with
               | Some _ => fail
               | None => fail
               | _ => destruct x
               end
           end;
    inversion H; subst; try reflexivity;
    exact (backoffLoop_not_unexpected _ _ _ _ _ _ _ _ _ _ _ Hloop).
Qed.

Lemma backoffLoop_retry_before (post : nat -> httpResult) (ctxDone : nat -> option ctxErr)
    (maxRetries : Z) (n : nat) (r sc : Z) (st : option AuthWebhookResponse) (k : nat)
    (ret : option error) (st' : option AuthWebhookResponse) (calls : nat) :
  backoffLoop _ (webhookCall post) ctxDone maxRetries n r sc st k = Finished ret st' calls ->
  forall j, (k <= j)%nat -> (S j < calls)%nat -> forall s,
    shouldRetry (fst (fst (webhookCall post j s))) (snd (fst (webhookCall post j s))) = true.
Proof.
  revert r st k. induction n as [|n IH]; intros r st k; simpl; [discriminate|].
  destruct (r <=? maxRetries).
  - destruct (webhookCall post k st) as [[sc' err] st''] eqn:Hcall.
    destruct (shouldRetry sc' err) eqn:Hs; simpl.
    + destruct (ctxDone k) as [c|].
      * intros Hf; inversion Hf; subst. lia.
      * intros Hf j Hj Hlt s. destruct (Nat.eq_dec j k) as [-> | Hne].
        -- rewrite (webhookCall_outcome_state post k s st), Hcall. exact Hs.
        -- apply (IH _ _ _ Hf); lia.
    + destruct (isUnexpectedStatusCode err); intros Hf; inversion Hf; subst; lia.
  - intros Hf; inversion Hf; subst. lia.
Qed.

(** The VerifyAccess closure is called again only after a retriable
    outcome: every call but the last one got a connection reset (on the
    POST, or reading the body of a 200 response) or a status 500, 503,
    504 or 429. *)
Theorem backoff_webhook_retry_only_retriable (post : nat -> httpResult)
    (ctxDone : nat -> option ctxErr) (maxRetries : Z) (fuel : nat)
    (ret : option error) (st' : option AuthWebhookResponse) (calls : nat) :
  withExponentialBackoff _ (webhookCall post) ctxDone maxRetries fuel None
    = Finished ret st' calls ->
  forall j, (S j < calls)%nat ->
    post j = PostFailed (TErrno ECONNRESET)
    \/ post j = PostResponse 200 (BodyReadFailed (TErrno ECONNRESET))
    \/ exists status body, post j = PostResponse status body /\ In status [500; 503; 504; 429].
Proof.
  unfold withExponentialBackoff. intros Hf j Hj.
  apply (webhookCall_retry_iff post j None).
  apply (backoffLoop_retry_before _ _ _ _ _ _ _ _ _ _ _ Hf); lia.
Qed.

Lemma backoffLoop_not_nilderef (post : nat -> httpResult) (ctxDone : nat -> option ctxErr)
    (maxRetries : Z) (n : nat) (r sc : Z) (st : option AuthWebhookResponse) (k : nat)
    (e : error) (st' : option AuthWebhookResponse) (calls : nat) :
  backoffLoop _ (webhookCall post) ctxDone maxRetries n r sc st k = Finished (Some e) st' calls ->
  e <> NilDeref.
Proof.
  revert r st k. induction n as [|n IH]; intros r st k; simpl; [discriminate|].
  destruct (r <=? maxRetries).
  - assert (Hw : snd (fst (webhookCall post k st)) <> Some NilDeref).
    { unfold webhookCall. destruct (post k) as [t | status body]; [discriminate|].
      destruct (negb (StatusOK =? status)); [discriminate|].
      destruct body as [resp | m | t]; [destruct (negb (Allowed resp))| |]; discriminate. }
    destruct (webhookCall post k st) as [[sc' err] st''] eqn:Hcall. simpl in Hw.
    destruct (negb (shouldRetry sc' err)).
    + destruct (isUnexpectedStatusCode err); intros Hf; inversion Hf; subst;
        [discriminate|]. intros ->. exact (Hw eq_refl).
    + destruct (ctxDone k) as [c|]; [|apply IH].
      intros Hf; inversion Hf; subst. discriminate.
  - intros Hf; inversion Hf; subst. discriminate.
Qed.

Lemma cacheNonNil_delete (cache : authCache) (key : string) :
  cacheNonNil cache -> cacheNonNil (delete key cache).
Proof.
  intros Hinv k entry t Hl. apply lookup_delete_Some in Hl. exact (Hinv _ _ _ (proj2 Hl)).
Qed.

Lemma cacheNonNil_insert (cache : authCache) (key : string) (resp : AuthWebhookResponse) (t : Z) :
  cacheNonNil cache -> cacheNonNil (<[key := (Some resp, t)]> cache).
Proof.
  intros Hinv k entry t' Hl. apply lookup_insert_Some in Hl.
  destruct Hl as [[_ Heq] | [_ Hl]]; [congruence | exact (Hinv _ _ _ Hl)].
Qed.

(** VerifyAccess only caches a decoded response: from a cache whose
    entries all hold a response, it leaves such a cache and never hits
    the nil dereference of a cached entry. *)
Theorem VerifyAccess_cache_nonnil (fuel : nat) (cfg : Config)
    (cache : authCache) (token : string) (info : AccessInfo)
    (post : nat -> httpResult) (ctxDone : nat -> option ctxErr) (getTime addTime : Z)
    (res : option error) (cache' : authCache)
    (Hinv : cacheNonNil cache)
    (Hrun : VerifyAccess marshal fuel cfg cache token info post ctxDone getTime addTime
            = Some (res, cache')) :
  cacheNonNil cache' /\ res <> Some NilDeref.
Proof.
  revert Hrun. va_cases cfg post ctxDone fuel cache getTime; intros Hrun;
    try discriminate Hrun.
  all: try (inversion Hrun; subst; split; [exact Hinv | discriminate]; fail).
  all: try (destruct entry as [resp|];
            [destruct (negb (Allowed resp)) | exfalso; exact (Hinv _ _ _ Hc eq_refl)]).
  all: pose proof (cacheNonNil_delete cache cacheKey Hinv) as Hdel.
  all: try (inversion Hrun; subst; split; [assumption | discriminate]; fail).
  all: pose proof (backoffLoop_decision _ _ _ _ _ _ _ _ _ _ _ Hloop) as [Hok Hdeny].
  all: destruct ret as [err|];
    [ destruct (errorsIs err NotAllowed) eqn:Hn; inversion Hrun; subst;
      [ destruct (Hdeny err eq_refl Hn) as (resp' & -> & _ & ->);
        split; [apply cacheNonNil_insert; assumption | discriminate]
      | split; [assumption|]; intros Heq; inversion Heq as [Heq'];
        exact (backoffLoop_not_nilderef _ _ _ _ _ _ _ _ _ _ _ Hloop Heq') ]
    | inversion Hrun; subst; destruct (Hok eq_refl) as (resp' & -> & _);
      split; [apply cacheNonNil_insert; assumption | discriminate] ].
Qed.


End VerifyAccessExtraProofs.

Section VerifyAccessExtraWitness.
Import Auth AuthAccess Fixtures.

Lemma VerifyAccess_cache_nonnil_witness :
  cacheNonNil (∅ : authCache) /\
  VerifyAccess oneKey 5 cfgNoRetry ∅ "token" (mkAccessInfo "PushPull" []) postDeny neverDone 0 2
  = Some (Some (Errorf "%s: %w" [ArgStr "no"] (Some (Sentinel NotAllowed))),
          <["req" := (Some (mkAuthWebhookResponse false "no"), 32)]> ∅) /\
  cacheNonNil (<["req" := (Some (mkAuthWebhookResponse false "no"), 32)]> ∅) /\
  Some (Errorf "%s: %w" [ArgStr "no"] (Some (Sentinel NotAllowed))) <> Some NilDeref.
Proof.
  assert (H0 : cacheNonNil (∅ : authCache)).
  { intros key entry t H. discriminate. }
  assert (Hrun : VerifyAccess oneKey 5 cfgNoRetry ∅ "token" (mkAccessInfo "PushPull" [])
                   postDeny neverDone 0 2
                 = Some (Some (Errorf "%s: %w" [ArgStr "no"] (Some (Sentinel NotAllowed))),
                         <["req" := (Some (mkAuthWebhookResponse false "no"), 32)]> ∅)).
  { vm_compute. reflexivity. }
  split; [exact H0|]. split; [exact Hrun|].
  exact (VerifyAccess_cache_nonnil oneKey 5 cfgNoRetry ∅ "token" (mkAccessInfo "PushPull" [])
           postDeny neverDone 0 2 _ _ H0 Hrun).
Defined.


Lemma VerifyAccess_never_unexpected_status_witness :
  VerifyAccess oneKey 5 cfgNoRetry ∅ "token" (mkAccessInfo "PushPull" []) post502 neverDone 0 0
  = Some (Some (Errorf "unexpected status code from webhook: %d" [ArgInt 502] None), ∅) /\
  errorsIs (Errorf "unexpected status code from webhook: %d" [ArgInt 502] None)
    UnexpectedStatusCode = false.
Proof.
  assert (Hrun : VerifyAccess oneKey 5 cfgNoRetry ∅ "token" (mkAccessInfo "PushPull" [])
                   post502 neverDone 0 0
                 = Some (Some (Errorf "unexpected status code from webhook: %d"
                                 [ArgInt 502] None), ∅)).
  { vm_compute. reflexivity. }
  split; [exact Hrun|].
  exact (VerifyAccess_never_unexpected_status oneKey 5 cfgNoRetry ∅ "token"
           (mkAccessInfo "PushPull" []) post502 neverDone 0 0 _ _ Hrun).
Defined.

Lemma backoff_webhook_retry_only_retriable_witness :
  withExponentialBackoff _ (webhookCall post503) neverDone 2 4 None
  = Finished (Some (Errorf "unexpected status code from webhook %d: %w"
                      [ArgInt 0] (Some (Sentinel WebhookTimeout)))) None 3 /\
  (post503 1 = PostFailed (TErrno ECONNRESET)
   \/ post503 1 = PostResponse 200 (BodyReadFailed (TErrno ECONNRESET))
   \/ exists status body, post503 1 = PostResponse status body
                          /\ In status [500; 503; 504; 429]).
Proof.
  assert (Hrun : withExponentialBackoff _ (webhookCall post503) neverDone 2 4 None
                 = Finished (Some (Errorf "unexpected status code from webhook %d: %w"
                                     [ArgInt 0] (Some (Sentinel WebhookTimeout)))) None 3).
  { vm_compute. reflexivity. }
  split; [exact Hrun|].
  exact (backoff_webhook_retry_only_retriable post503 neverDone 2 4 _ _ _ Hrun 1 ltac:(lia)).
Defined.

End VerifyAccessExtraWitness.

(** ** PushPull and its goroutine *)
Section PushPullExtraProofs.
Import Change Packs.

Variable BSONKey : Key -> string.
Variable pushChanges :
  ClientInfo -> DocInfo -> Pack -> Z -> DocInfo * result (checkpoint * list Change).
Variable pullPack : ClientInfo -> DocInfo -> Pack -> checkpoint -> Z -> result ServerPack.
Variable UpdateCheckpoint : ClientInfo -> string -> checkpoint -> result ClientInfo.
Variable CreateChangeInfos : DocInfo -> Z -> list Change -> option error.
Variable UpdateClientInfoAfterPushPull : ClientInfo -> DocInfo -> option error.
Variable UpdateAndFindMinSyncedTicket : ClientInfo -> string -> Z -> result Ticket.
Variable ActorIDFromHex : string -> result ActorID.
Variable NewLocker : string -> option error.
Variable TryLock : string -> option error.
Variable Unlock : string -> option error.
Variable storeSnapshot : DocInfo -> Ticket -> option error.

Local Abbreviation pushPull := (PushPull BSONKey pushChanges pullPack UpdateCheckpoint
  CreateChangeInfos UpdateClientInfoAfterPushPull UpdateAndFindMinSyncedTicket
  ActorIDFromHex NewLocker TryLock Unlock storeSnapshot).

Local Abbreviation task := (snapshotTask BSONKey ActorIDFromHex NewLocker TryLock Unlock storeSnapshot).

Ltac pp_cases :=
  repeat match goal with
         | |- context [match ?x with _ => _ end] =>
             lazymatch x with
             | pullPack _ _ _ _ _ => destruct x eqn:?
             | UpdateCheckpoint _ _ _ => destruct x eqn:?
             | CreateChangeInfos _ _ _ => destruct x eqn:?
             | UpdateClientInfoAfterPushPull _ _ => destruct x eqn:?
             | UpdateAndFindMinSyncedTicket _ _ _ => destruct x eqn:?
             | (_ <? _) => destruct x eqn:?
             | HasChanges _ => destruct x eqn:?
             end
         end.

(** A failed PushPull launches no goroutine: nothing is published and
    no snapshot is stored. *)
Theorem PushPull_error_no_goroutine (clientInfo : ClientInfo) (docInfo : DocInfo)
    (reqPack : Pack) :
  let '(tr, r) := pushPull clientInfo docInfo reqPack in
  forall e, r = Err e -> forall evs, ~ In (EvAttachGoroutine evs) tr.
Proof.
  unfold PushPull, bind, lift, check, emit, ret, fail.
  destruct (pushChanges clientInfo docInfo reqPack (di_ServerSeq docInfo))
    as [di1 [[pushedCP pushedChanges] | e]]; simpl; [|intros ? ? ? []].
  pp_cases; simpl; intros e' He evs Hin; try discriminate He;
    repeat destruct Hin as [Hin | Hin]; first [discriminate Hin | contradiction].
Qed.

(** Change infos are stored only for a non-empty list of pushed changes:
    the ones [pushChanges] returned, with the document info it returned
    and the server seq the document had before the push. *)
Theorem PushPull_createChangeInfos_args (clientInfo : ClientInfo) (docInfo : DocInfo)
    (reqPack : Pack) :
  let '(tr, r) := pushPull clientInfo docInfo reqPack in
  forall d s changes, In (EvCreateChangeInfos d s changes) tr ->
    s = di_ServerSeq docInfo /\ changes <> [] /\
    exists cp, pushChanges clientInfo docInfo reqPack (di_ServerSeq docInfo) = (d, Ok (cp, changes)).
Proof.
  unfold PushPull, bind, lift, check, emit, ret, fail.
  destruct (pushChanges clientInfo docInfo reqPack (di_ServerSeq docInfo))
    as [di1 [[pushedCP pushedChanges] | e]] eqn:Hpush; simpl; [|intros ? ? ? []].
  pp_cases; simpl; intros d s changes Hin; repeat destruct Hin as [Hin | Hin];
    try discriminate; try contradiction; inversion Hin; subst;
    (split; [reflexivity | split; [|eauto]]);
    match goal with Hb : (_ <? _) = true |- _ =>
      apply Z.ltb_lt in Hb; intros ->; simpl in Hb; lia end.
Qed.

Lemma snapshotTask_store (clientInfo : ClientInfo) (docInfo : DocInfo) (reqPack : Pack)
    (t0 : Ticket) (d : DocInfo) (t : Ticket) :
  In (BgStoreSnapshot d t) (task clientInfo docInfo reqPack t0) -> d = docInfo /\ t = t0.
Proof.
  unfold snapshotTask, unlockEffects.
  destruct (ActorIDFromHex (ci_ID clientInfo)); [|intros [H | []]; discriminate].
  destruct (NewLocker _); [intros [H | []]; discriminate|].
  destruct (TryLock _); [intros [H | []]; discriminate|].
  destruct (storeSnapshot docInfo t0); destruct (Unlock _); simpl;
    intros Hin; repeat destruct Hin as [Hin | Hin];
    try discriminate; try contradiction; inversion Hin; subst; auto.
Qed.

(** The snapshot the goroutine stores is taken at the response's
    [MinSyncedTicket], for the document info returned by the push. *)
Theorem PushPull_snapshot_ticket (clientInfo : ClientInfo) (docInfo : DocInfo)
    (reqPack : Pack) :
  let '(tr, r) := pushPull clientInfo docInfo reqPack in
  forall evs, In (EvAttachGoroutine evs) tr ->
  forall d t, In (BgStoreSnapshot d t) evs ->
    d = fst (pushChanges clientInfo docInfo reqPack (di_ServerSeq docInfo)) /\
    exists resp, r = Ok resp /\ sp_MinSyncedTicket resp = Some t.
Proof.
  unfold PushPull, bind, lift, check, emit, ret, fail.
  destruct (pushChanges clientInfo docInfo reqPack (di_ServerSeq docInfo))
    as [di1 [[pushedCP pushedChanges] | e]]; simpl; [|intros ? []].
  pp_cases; simpl; intros evs Hin d t Hst; repeat destruct Hin as [Hin | Hin];
    try discriminate; try contradiction; inversion Hin; subst;
    destruct (snapshotTask_store _ _ _ _ _ _ Hst) as [-> ->];
    (split; [reflexivity | eexists; split; reflexivity]).
Qed.

(** A lock taken by the goroutine is the snapshot key of the request's
    document, and the goroutine ends by releasing it; it releases only a
    lock it has taken. *)
Theorem snapshotTask_unlock_after_lock (clientInfo : ClientInfo) (docInfo : DocInfo)
    (reqPack : Pack) (t : Ticket) :
  let evs := task clientInfo docInfo reqPack t in
  (forall key, In (BgTryLock key true) evs ->
     key = NewSnapshotKey BSONKey (DocumentKey reqPack) /\
     exists pre, evs = pre ++ unlockEffects Unlock key) /\
  (forall key, In (BgUnlock key) evs -> In (BgTryLock key true) evs).
Proof.
  unfold snapshotTask. simpl.
  destruct (ActorIDFromHex (ci_ID clientInfo)) as [publisherID | e];
    [|split; intros key [H | []]; discriminate].
  destruct (NewLocker _) as [e|]; [split; intros key [H | []]; discriminate|].
  destruct (TryLock _) as [e|]; [split; intros key [H | []]; discriminate|].
  split.
  - intros key Hin. simpl in Hin. destruct Hin as [H | Hin].
    + inversion H; subst. split; [reflexivity|].
      eexists ([_; _; _] ++ _). simpl. reflexivity.
    + exfalso. destruct Hin as [H | [H | Hin]]; try discriminate.
      apply in_app_or in Hin. destruct Hin as [Hin | Hin].
      * destruct (storeSnapshot docInfo t); simpl in Hin;
          [destruct Hin as [H | []]; discriminate | contradiction].
      * unfold unlockEffects in Hin. destruct (Unlock _); simpl in Hin;
          repeat destruct Hin as [Hin | Hin]; first [discriminate | contradiction].
  - intros key Hin. simpl in Hin. destruct Hin as [H | [H | [H | Hin]]]; try discriminate.
    apply in_app_or in Hin. destruct Hin as [Hin | Hin].
    + exfalso. destruct (storeSnapshot docInfo t); simpl in Hin;
        [destruct Hin as [H | []]; discriminate | contradiction].
    + unfold unlockEffects in Hin. simpl in Hin. destruct Hin as [H | Hin].
      * inversion H; subst. left. reflexivity.
      * exfalso. destruct (Unlock _); simpl in Hin;
          repeat destruct Hin as [Hin | Hin]; first [discriminate | contradiction].
Qed.

(** The goroutine publishes at most one event: a [DocumentsChangedEvent]
    for the request's document, published by the client's actor ID. *)
Theorem snapshotTask_publish (clientInfo : ClientInfo) (docInfo : DocInfo)
    (reqPack : Pack) (t : Ticket) :
  let evs := task clientInfo docInfo reqPack t in
  (forall p ev, In (BgPublish p ev) evs ->
     ActorIDFromHex (ci_ID clientInfo) = Ok p /\
     ev = mkDocEvent DocumentsChangedEvent p [DocumentKey reqPack]) /\
  (length (List.filter (fun e => match e with BgPublish _ _ => true | _ => false end) evs) <= 1)%nat.
Proof.
  unfold snapshotTask, unlockEffects. simpl.
  destruct (ActorIDFromHex (ci_ID clientInfo)) as [publisherID | e];
    [|split; [intros p ev [H | []]; discriminate | simpl; lia]].
  destruct (NewLocker _) as [e|]; [split; [intros p ev [H | []]; discriminate | simpl; lia]|].
  destruct (TryLock _) as [e|]; [split; [intros p ev [H | []]; discriminate | simpl; lia]|].
  destruct (storeSnapshot docInfo t); destruct (Unlock _); simpl;
    (split; [|lia]); intros p ev Hin; repeat destruct Hin as [Hin | Hin];
    try discriminate; try contradiction; inversion Hin; subst; auto.
Qed.

(** The push-pull lock key and the snapshot lock key never coincide, for
    any two documents. *)
Theorem lock_keys_distinct (k1 k2 : Key) :
  NewPushPullKey BSONKey k1 <> NewSnapshotKey BSONKey k2.
Proof. unfold NewPushPullKey, NewSnapshotKey. simpl. discriminate. Qed.

End PushPullExtraProofs.
